(** * Locale-aware navigation in the TanStack Start / Intlayer starter

    The development embeds the navigation code of the starter:

    - [src/routes/index.tsx]: the root route, whose component renders
      [<Navigate replace to={locale} />];
    - [src/components/localized-link.tsx]: [LocalizedLink];
    - [src/hooks/useLocalizedNavigate.ts]: [useLocalizedNavigate];
    - [src/components/locale-switcher.tsx]: [LocaleSwitcher];
    - [intlayer.config.ts]: the configured locales.

    The functions imported from [intlayer] and [react-intlayer] are not
    part of the repository.  The pure ones ([getLocalizedUrl],
    [getLocaleName], [getHTMLTextDir]) are section variables of the
    components that call them, so that what is proved of a component holds
    for every such library function; the calls that act on the page
    ([navigate], [location.replace], [setLocale]) are recorded as effects. *)

From Stdlib Require Import String Ascii List Bool Arith Lia.
From stdpp Require Import gmap strings list.

(** ** A fragment of JavaScript regular expressions

    Enough of the syntax to write [/^(https?:)?\/\//]: literal characters,
    concatenation and the greedy optional [r?].  [exec] is a backtracking
    matcher in continuation-passing style, anchored at the start of the
    subject the way [^] anchors the source pattern; [test] accepts as soon as
    the pattern is consumed, whatever follows. *)
Module Regex.

Inductive regex : Type :=
| Eps : regex
| Chr : ascii -> regex
| Seq : regex -> regex -> regex
| Opt : regex -> regex.

Fixpoint lit (s : string) : regex :=
  match s with
  | EmptyString => Eps
  | String c s' => Seq (Chr c) (lit s')
  end.

Fixpoint exec (r : regex) (s : string) (k : string -> bool) : bool :=
  match r with
  | Eps => k s
  | Chr c =>
      match s with
      | String c' s' => if Ascii.eqb c c' then k s' else false
      | EmptyString => false
      end
  | Seq r1 r2 => exec r1 s (fun s' => exec r2 s' k)
  | Opt r1 => exec r1 s k || k s
  end.

Definition test (r : regex) (s : string) : bool := exec r s (fun _ => true).

End Regex.

(** [strip_prefix p s] is [Some s'] exactly when [s = p ++ s']. *)
Fixpoint strip_prefix (p s : string) : option string :=
  match p with
  | EmptyString => Some s
  | String c p' =>
      match s with
      | String c' s' => if Ascii.eqb c c' then strip_prefix p' s' else None
      | EmptyString => None
      end
  end.

(** ** Values, objects and effects *)

Definition Locale : Type := string.

(** The property values the components pass along.  Functions and React
    nodes are opaque to the code under study, which only spreads them. *)
Inductive JSVal : Type :=
| VUndefined : JSVal
| VBool : bool -> JSVal
| VNum : Z -> JSVal
| VStr : string -> JSVal
| VOpaque : nat -> JSVal.

(** The calls the components make into the router, the window and the
    i18n library. *)
Inductive Effect : Type :=
| RouterNavigate : gmap string JSVal -> Effect
| LocationReplace : string -> Effect
| SetLocale : string -> Effect.

(** [{ to: string } & Omit<..., 'to'>]: a string field [to] next to the
    remaining fields of the router's own option type. *)
Record WithTo : Type := mkWithTo {
  to : string;
  others : gmap string JSVal
}.

(** The JavaScript object behind a [WithTo] value, as [{...x}] copies it. *)
Definition spread (x : WithTo) : gmap string JSVal :=
  <["to" := VStr (to x)]> (others x).

(** [/^(https?:)?\/\//] *)
Definition externalPattern : Regex.regex :=
  Regex.Seq
    (Regex.Opt
       (Regex.Seq (Regex.lit "http")
          (Regex.Seq (Regex.Opt (Regex.Chr "s")) (Regex.Chr ":"))))
    (Regex.lit "//").

(** ** [intlayer.config.ts] *)
Module Config.

Definition ENGLISH : Locale := "en".
Definition FRENCH : Locale := "fr".
Definition SPANISH : Locale := "es".

Definition defaultLocale : Locale := ENGLISH.
Definition locales : list Locale := [ENGLISH; FRENCH; SPANISH].
Definition prefixDefault : bool := true.

End Config.

(** ** [src/components/localized-link.tsx] *)
Module Link.
Section WithLibrary.
Variable getLocalizedUrl : string -> Locale -> string.

Definition isExternal (to : string) : bool :=
  Regex.test externalPattern to.

(** The constant [to] computed in the body of [LocalizedLink]. *)
Definition localizedTo (to : string) (locale : Locale) : string :=
  if isExternal to then to else getLocalizedUrl to locale.

(** [<Link {...props} to={to} />], as the property object handed to
    [Link]; [locale] is what [useLocale()] returns. *)
Definition LocalizedLink (props : WithTo) (locale : Locale)
  : gmap string JSVal :=
  <["to" := VStr (localizedTo (to props) locale)]> (spread props).
End WithLibrary.
End Link.

(** ** [src/hooks/useLocalizedNavigate.ts] *)
Module Navigate.
Section WithLibrary.
Variable getLocalizedUrl : string -> Locale -> string.

Definition isExternal (to : string) : bool :=
  Regex.test externalPattern to.

Definition localizedTo (to : string) (locale : Locale) : string :=
  if isExternal to then to else getLocalizedUrl to locale.

(** [localizedNavigate options]: one call [navigate({...options, to})]. *)
Definition localizedNavigate (locale : Locale) (options : WithTo)
  : list Effect :=
  [RouterNavigate
     (<["to" := VStr (localizedTo (to options) locale)]> (spread options))].

(** The hook closes over the current locale and returns the function. *)
Definition useLocalizedNavigate (locale : Locale) : WithTo -> list Effect :=
  localizedNavigate locale.
End WithLibrary.
End Navigate.

(** ** [src/components/locale-switcher.tsx] *)
Module Switcher.

Record OptionEl : Type := mkOption {
  dir : string;
  key : string;
  lang : string;
  value : string;
  children : list string
}.

Record SelectEl : Type := mkSelect {
  aria_label : string;
  onChange : string -> list Effect;
  selectValue : string;
  options : list OptionEl
}.

(** The option a controlled [<select value={v}>] shows as selected: the
    first one whose value is [v], and the first option when none has it. *)
Definition selectedOption (s : SelectEl) : option OptionEl :=
  match find (fun o => String.eqb (value o) (selectValue s)) (options s) with
  | Some o => Some o
  | None => head (options s)
  end.

Section WithLibrary.
Variable getLocalizedUrl : string -> Locale -> string.
Variable getLocaleName : Locale -> Locale -> string.
Variable getHTMLTextDir : Locale -> string.

(** The [onLocaleChange] callback handed to [useLocale]; [pathname] and
    [searchStr] come from [useLocation()]. *)
Definition onLocaleChange (pathname searchStr : string)
    (newLocale : Locale) : list Effect :=
  let pathWithLocale := getLocalizedUrl (pathname +:+ searchStr) newLocale in
  [LocationReplace pathWithLocale].

Definition renderOption (locale localeItem : Locale) : OptionEl :=
  {| dir := getHTMLTextDir localeItem;
     key := localeItem;
     lang := localeItem;
     value := localeItem;
     children := [getLocaleName localeItem locale; " (";
                  getLocaleName localeItem Config.ENGLISH; ")"] |}.

(** [label] is [content.label.toString()]; [availableLocales] and
    [locale] are what [useLocale] returns; the [onChange] handler is
    [(e) => setLocale(e.target.value)]. *)
Definition LocaleSwitcher (label : string)
    (availableLocales : list Locale) (locale : Locale) : SelectEl :=
  {| aria_label := label;
     onChange := fun target_value => [SetLocale target_value];
     selectValue := locale;
     options := map (renderOption locale) availableLocales |}.
End WithLibrary.
End Switcher.

(** ** [src/routes/index.tsx] *)
Module RootRoute.

(** The properties of a [<Navigate>] element. *)
Record NavigateEl : Type := mkNavigate {
  replace : bool;
  to : string
}.

(** The path the route is registered for: [createFileRoute('/')]. *)
Definition routePath : string := "/".

(** [<Navigate replace to={locale} />], [locale] being what [useLocale()]
    returns. *)
Definition RouteComponent (locale : Locale) : NavigateEl :=
  {| replace := true; to := locale |}.

End RootRoute.

(** ** The session history and the router's navigation

    The routing framework and the browser are collaborators of the
    repository.  Their part is the History API: a list of entries about a
    current one, [pushState] that adds an entry and drops the forward ones,
    [replaceState] that overwrites the current entry, and [back] and
    [forward] that move along the list. *)
Module Browser.

Record History : Type := mkHistory {
  past : list string;
  present : string;
  future : list string
}.

Definition open (path : string) : History :=
  {| past := []; present := path; future := [] |}.

Definition pushState (path : string) (h : History) : History :=
  {| past := present h :: past h; present := path; future := [] |}.

Definition replaceState (path : string) (h : History) : History :=
  {| past := past h; present := path; future := future h |}.

Definition back (h : History) : History :=
  match past h with
  | [] => h
  | p :: ps => {| past := ps; present := p; future := present h :: future h |}
  end.

Definition forward (h : History) : History :=
  match future h with
  | [] => h
  | f :: fs => {| past := present h :: past h; present := f; future := fs |}
  end.

Fixpoint ends_with_slash (s : string) : bool :=
  match s with
  | EmptyString => false
  | String c EmptyString => Ascii.eqb c "/"
  | String _ s' => ends_with_slash s'
  end.

(** A target that starts with [/] is absolute; any other is appended to the
    current pathname as further segments. *)
Definition resolvePath (base target : string) : string :=
  match target with
  | String "/" _ => target
  | _ => if ends_with_slash base then base +:+ target
         else base +:+ "/" +:+ target
  end.

(** What mounting a [<Navigate>] element does to the history. *)
Definition mount (el : RootRoute.NavigateEl) (h : History) : History :=
  let dest := resolvePath (present h) (RootRoute.to el) in
  if RootRoute.replace el then replaceState dest h else pushState dest h.

(** The root route matches the pathname [/] alone; when it matches, its
    component is mounted at once. *)
Definition settle (locale : Locale) (h : History) : History :=
  if String.eqb (present h) RootRoute.routePath
  then mount (RootRoute.RouteComponent locale) h
  else h.

Inductive action : Type :=
| Visit : string -> action
| Replace : string -> action
| GoBack : action
| GoForward : action.

Definition act (a : action) (h : History) : History :=
  match a with
  | Visit path => pushState path h
  | Replace path => replaceState path h
  | GoBack => back h
  | GoForward => forward h
  end.

(** The histories a session of the application goes through, observed once
    the root route has settled.  The locale in force may differ from one
    step to the next, and is always a configured one. *)
Inductive reachable : History -> Prop :=
| reach_open : forall locale path,
    In locale Config.locales ->
    reachable (settle locale (open path))
| reach_step : forall locale a h,
    reachable h ->
    In locale Config.locales ->
    reachable (settle locale (act a h)).

(** No entry of the history is the unprefixed root. *)
Definition rootless (h : History) : Prop :=
  ~ In RootRoute.routePath (past h) /\
  present h <> RootRoute.routePath /\
  ~ In RootRoute.routePath (future h).

End Browser.

(** ** The library's path rewriting

    [getLocalizedUrl] is imported from the [intlayer] package; its source
    is not in the repository.  The model below follows the contract the
    specification gives for it and is used only where a statement is about
    what the library returns. *)
Module Intlayer.

(** Modelled from the spec: helper of the absent [getLocalizedUrl]; the
    characters that end the first segment of a path. *)
Definition is_delimiter (c : ascii) : bool :=
  Ascii.eqb c "/" || Ascii.eqb c "?" || Ascii.eqb c "#".

(** Modelled from the spec: helper of the absent [getLocalizedUrl]; the
    first segment of a path without its leading slash, and what follows. *)
Fixpoint first_segment (s : string) : string * string :=
  match s with
  | EmptyString => (EmptyString, EmptyString)
  | String c s' =>
      if is_delimiter c then (EmptyString, s)
      else let (seg, rest) := first_segment s' in (String c seg, rest)
  end.

(** Modelled from the spec: helper of the absent [getLocalizedUrl]; a
    path without its leading slash. *)
Definition drop_slash (s : string) : string :=
  match s with
  | String "/" s' => s'
  | _ => s
  end.

(** Modelled from the spec: helper of the absent [getLocalizedUrl]; a
    locale identifier is one "drawn from a fixed, configured set of
    supported locales". *)
Definition is_locale (seg : string) : bool :=
  existsb (String.eqb seg) Config.locales.

(** Modelled from the spec: the part of the library's [getLocalizedUrl]
    that removes the locale a path already carries.  A path is
    "an application-relative string, optionally already locale-prefixed",
    and a locale-prefixed path is one "whose first segment is a locale
    identifier": when the first segment is a configured locale it is taken
    off, and what remains of the path, query string included, is kept. *)
Definition getPathWithoutLocale (path : string) : string :=
  let relative := drop_slash path in
  let (seg, rest) := first_segment relative in
  if is_locale seg then drop_slash rest else relative.

(** Modelled from the spec: [getLocalizedUrl] of the [intlayer] package,
    absent from the repository.  It "returns the path rewritten to carry
    that locale's prefix": the result is [/locale/] followed by the path
    without the locale it carried, so that it "begins with /L/" and
    carries one locale prefix. *)
Definition getLocalizedUrl (path : string) (locale : Locale) : string :=
  "/" +:+ locale +:+ "/" +:+ getPathWithoutLocale path.

End Intlayer.

(** * Properties *)

(** ** The external-URL pattern *)

Lemma exec_lit (p s : string) (k : string -> bool) :
  Regex.exec (Regex.lit p) s k =
  match strip_prefix p s with
  | Some s' => k s'
  | None => false
  end.
Proof.
  revert s; induction p as [|c p IH]; intros s; simpl; [reflexivity|].
  destruct s as [|c' s']; [reflexivity|].
  destruct (Ascii.eqb c c'); [apply IH | reflexivity].
Qed.

Lemma strip_prefix_app (p r : string) : strip_prefix p (p +:+ r) = Some r.
Proof.
  induction p as [|c p IH]; simpl; [reflexivity|].
  now rewrite Ascii.eqb_refl.
Qed.

Lemma strip_prefix_Some (p s r : string) :
  strip_prefix p s = Some r -> s = p +:+ r.
Proof.
  revert s; induction p as [|c p IH]; intros s; simpl.
  - now intros [= ->].
  - destruct s as [|c' s']; [discriminate|].
    destruct (Ascii.eqb_spec c c') as [->|]; [|discriminate].
    intros H; now rewrite (IH _ H).
Qed.

(** The source pattern accepts exactly the strings that start with [//],
    [http://] or [https://]. *)
Lemma externalPattern_spec (s : string) :
  Regex.test externalPattern s = true <->
  exists rest, s = "//" +:+ rest \/ s = "http://" +:+ rest
               \/ s = "https://" +:+ rest.
Proof.
  unfold Regex.test, externalPattern.
  cbn [Regex.exec]. rewrite !exec_lit. split.
  - intros H. apply orb_prop in H as [H|H].
    + destruct (strip_prefix "http" s) as [s1|] eqn:E1; [|discriminate].
      apply strip_prefix_Some in E1. apply orb_prop in H as [H|H].
      * destruct s1 as [|c s2]; [discriminate|].
        destruct (Ascii.eqb_spec "s" c) as [<-|]; [|discriminate].
        destruct s2 as [|c2 s3]; [discriminate|].
        destruct (Ascii.eqb_spec ":" c2) as [<-|]; [|discriminate].
        rewrite exec_lit in H.
        destruct (strip_prefix "//" s3) as [r|] eqn:E2; [|discriminate].
        apply strip_prefix_Some in E2. exists r. right; right. now subst.
      * destruct s1 as [|c s2]; [discriminate|].
        destruct (Ascii.eqb_spec ":" c) as [<-|]; [|discriminate].
        rewrite exec_lit in H.
        destruct (strip_prefix "//" s2) as [r|] eqn:E2; [|discriminate].
        apply strip_prefix_Some in E2. exists r. right; left. now subst.
    + destruct (strip_prefix "//" s) as [r|] eqn:E; [|discriminate].
      apply strip_prefix_Some in E. exists r. now left.
  - intros [r [-> | [-> | ->]]]; reflexivity.
Qed.

(** The pattern is case sensitive, wants both slashes, and looks at the
    start of the string only. *)
Example externalPattern_samples :
  Regex.test externalPattern "//cdn.example.com/app.js" = true /\
  Regex.test externalPattern "http://example.com" = true /\
  Regex.test externalPattern "https://example.com/fr" = true /\
  Regex.test externalPattern "/about" = false /\
  Regex.test externalPattern "about" = false /\
  Regex.test externalPattern "https:/example.com" = false /\
  Regex.test externalPattern "HTTPS://example.com" = false /\
  Regex.test externalPattern "ftp://example.com" = false /\
  Regex.test externalPattern "/go?to=https://example.com" = false.
Proof. repeat split. Qed.

(** ** The two navigation wrappers *)

Section Wrappers.
Variable getLocalizedUrl : string -> Locale -> string.

Lemma isExternal_same (t : string) :
  Link.isExternal t = Navigate.isExternal t.
Proof. reflexivity. Qed.

Lemma localizedTo_same (t : string) (locale : Locale) :
  Link.localizedTo getLocalizedUrl t locale =
  Navigate.localizedTo getLocalizedUrl t locale.
Proof. reflexivity. Qed.

(** The wrapper adds nothing of its own to a second application: it is
    idempotent at every path at which the library's rewriting is. *)
Lemma localizedTo_idempotent_at (p : string) (locale : Locale) :
  getLocalizedUrl (getLocalizedUrl p locale) locale =
    getLocalizedUrl p locale ->
  Link.localizedTo getLocalizedUrl
    (Link.localizedTo getLocalizedUrl p locale) locale =
  Link.localizedTo getLocalizedUrl p locale.
Proof.
  intros Hlib. unfold Link.localizedTo.
  destruct (Link.isExternal p) eqn:Hp.
  - now rewrite Hp.
  - destruct (Link.isExternal (getLocalizedUrl p locale)); [reflexivity|].
    exact Hlib.
Qed.

(** C1: a path that matches [^(https?:)?//] comes out of the
    localization step of [LocalizedLink] and of [useLocalizedNavigate]
    unchanged, whatever the locale and whatever the library's
    [getLocalizedUrl] does. *)
Theorem external_url_unchanged (U : string) (L : Locale) :
  Regex.test externalPattern U = true ->
  Link.localizedTo getLocalizedUrl U L = U /\
  Navigate.localizedTo getLocalizedUrl U L = U.
Proof.
  intros HU. unfold Link.localizedTo, Navigate.localizedTo,
    Link.isExternal, Navigate.isExternal.
  now rewrite HU.
Qed.

(** C9: [LocalizedLink] and [useLocalizedNavigate] test the target with
    the same predicate and resolve it to the same destination: the
    object the hook passes to [navigate] is the property object the
    component passes to [Link], and its [to] is the localized target. *)
Theorem link_and_navigate_agree (x : WithTo) (L : Locale) :
  Link.isExternal (to x) = Navigate.isExternal (to x) /\
  Link.localizedTo getLocalizedUrl (to x) L =
    Navigate.localizedTo getLocalizedUrl (to x) L /\
  Navigate.useLocalizedNavigate getLocalizedUrl L x =
    [RouterNavigate (Link.LocalizedLink getLocalizedUrl x L)] /\
  Link.LocalizedLink getLocalizedUrl x L !! "to" =
    Some (VStr (Link.localizedTo getLocalizedUrl (to x) L)).
Proof.
  repeat split.
  unfold Link.LocalizedLink. apply lookup_insert_eq.
Qed.

(** C10: every field other than [to] reaches the underlying [navigate]
    call and the underlying [Link] with the value it was given, and a
    field that was not given is not passed; [to] alone is rewritten, to
    the localized target. *)
Theorem other_fields_forwarded (x : WithTo) (L : Locale) (k : string) :
  k <> "to" ->
  (exists arg,
      Navigate.useLocalizedNavigate getLocalizedUrl L x =
        [RouterNavigate arg] /\
      arg !! k = others x !! k /\
      arg !! "to" =
        Some (VStr (Navigate.localizedTo getLocalizedUrl (to x) L))) /\
  Link.LocalizedLink getLocalizedUrl x L !! k = others x !! k /\
  Link.LocalizedLink getLocalizedUrl x L !! "to" =
    Some (VStr (Link.localizedTo getLocalizedUrl (to x) L)).
Proof.
  intros Hk.
  assert (Hfwd : forall v : JSVal,
             <["to" := v]> (spread x) !! k = others x !! k).
  { intros v. unfold spread.
    rewrite lookup_insert_ne by congruence.
    now rewrite lookup_insert_ne by congruence. }
  split; [eexists; split; [reflexivity|split] | split].
  - apply Hfwd.
  - apply lookup_insert_eq.
  - unfold Link.LocalizedLink. apply Hfwd.
  - unfold Link.LocalizedLink. apply lookup_insert_eq.
Qed.

(** Apart from [to], the forwarded object is the given one as a whole. *)
Lemma forwarded_object_frame (x : WithTo) (L : Locale) :
  delete "to" (Link.LocalizedLink getLocalizedUrl x L) =
  delete "to" (others x).
Proof.
  unfold Link.LocalizedLink, spread.
  now rewrite !delete_insert_eq.
Qed.
End Wrappers.

(** ** The locale switcher *)

Section SwitcherFacts.
Variable getLocalizedUrl : string -> Locale -> string.
Variable getLocaleName : Locale -> Locale -> string.
Variable getHTMLTextDir : Locale -> string.

Local Abbreviation render :=
  (Switcher.LocaleSwitcher getLocaleName getHTMLTextDir).

Lemma option_values (label : string) (available : list Locale)
    (locale : Locale) :
  map Switcher.value (Switcher.options (render label available locale)) =
  available.
Proof.
  unfold render; simpl. rewrite map_map. simpl. apply map_id.
Qed.

Lemma find_rendered (locale : Locale) (available : list Locale) :
  In locale available ->
  find (fun o => String.eqb (Switcher.value o) locale)
    (map (Switcher.renderOption getLocaleName getHTMLTextDir locale)
       available) =
  Some (Switcher.renderOption getLocaleName getHTMLTextDir locale locale).
Proof.
  induction available as [|a l IH]; intros Hin; [destruct Hin|].
  simpl. destruct (String.eqb_spec a locale) as [->|Hne]; [reflexivity|].
  destruct Hin as [->|Hin]; [congruence | now apply IH].
Qed.

(** C4: with the location at pathname [P] and query string [Q], the
    change handler of the locale switcher makes one navigation, a
    [location.replace], to the library's localization of [P] followed by
    [Q] under the new locale. *)
Theorem locale_change_navigates (P Q : string) (L' : Locale) :
  Switcher.onLocaleChange getLocalizedUrl P Q L' =
  [LocationReplace (getLocalizedUrl (P +:+ Q) L')].
Proof. reflexivity. Qed.

(** The handler calls the library directly, without the external-URL test
    of the two wrappers; on a location that is not an external URL it
    navigates to what [LocalizedLink] would link to. *)
Lemma locale_change_as_link (P Q : string) (L' : Locale) :
  Link.isExternal (P +:+ Q) = false ->
  Switcher.onLocaleChange getLocalizedUrl P Q L' =
  [LocationReplace (Link.localizedTo getLocalizedUrl (P +:+ Q) L')].
Proof.
  intros HPQ. unfold Switcher.onLocaleChange, Link.localizedTo.
  now rewrite HPQ.
Qed.

(** C8: the rendered selector has one option per available locale, in
    their order, and the option it shows as selected is the one whose
    value is the active locale. *)
Theorem switcher_options (label : string) (available : list Locale)
    (locale : Locale) :
  In locale available ->
  length (Switcher.options (render label available locale)) =
    length available /\
  Switcher.selectValue (render label available locale) = locale /\
  exists o,
    Switcher.selectedOption (render label available locale) = Some o /\
    In o (Switcher.options (render label available locale)) /\
    Switcher.value o = locale.
Proof.
  intros Hin. split; [|split].
  - unfold render; simpl. apply length_map.
  - reflexivity.
  - exists (Switcher.renderOption getLocaleName getHTMLTextDir locale locale).
    unfold Switcher.selectedOption, render; simpl.
    rewrite (find_rendered _ _ Hin). split; [reflexivity|]. split.
    + now apply in_map.
    + reflexivity.
Qed.

(** What the selector can emit is an available locale, and the handler
    hands the emitted value to [setLocale] as it is. *)
Lemma selector_emits_available (label : string)
    (available : list Locale) (locale : Locale) (o : Switcher.OptionEl) :
  In o (Switcher.options (render label available locale)) ->
  In (Switcher.value o) available /\
  Switcher.onChange (render label available locale) (Switcher.value o) =
    [SetLocale (Switcher.value o)].
Proof.
  unfold render; simpl. intros Ho. apply in_map_iff in Ho as [a [<- Ha]].
  now split.
Qed.
End SwitcherFacts.

(** ** The root redirect *)

Lemma resolve_locale_not_root (locale : Locale) :
  In locale Config.locales ->
  Browser.resolvePath RootRoute.routePath locale <> RootRoute.routePath.
Proof.
  intros [<- | [<- | [<- | []]]]; discriminate.
Qed.

Lemma mount_root_frame (locale : Locale) (h : Browser.History) :
  Browser.past (Browser.mount (RootRoute.RouteComponent locale) h) =
    Browser.past h /\
  Browser.future (Browser.mount (RootRoute.RouteComponent locale) h) =
    Browser.future h.
Proof. split; reflexivity. Qed.

Lemma settle_rootless (locale : Locale) (h : Browser.History) :
  In locale Config.locales ->
  ~ In RootRoute.routePath (Browser.past h) ->
  ~ In RootRoute.routePath (Browser.future h) ->
  Browser.rootless (Browser.settle locale h).
Proof.
  intros Hl Hp Hf. unfold Browser.settle.
  destruct (String.eqb_spec (Browser.present h) RootRoute.routePath)
    as [Heq|Hne].
  - repeat split; try assumption.
    unfold Browser.mount; simpl. rewrite Heq.
    now apply resolve_locale_not_root.
  - repeat split; assumption.
Qed.

Lemma act_rootless (a : Browser.action) (h : Browser.History) :
  Browser.rootless h ->
  ~ In RootRoute.routePath (Browser.past (Browser.act a h)) /\
  ~ In RootRoute.routePath (Browser.future (Browser.act a h)).
Proof.
  intros (Hp & Hc & Hf). destruct a as [path|path| |]; simpl.
  - split; [|intros []]. intros [E|E]; [now apply Hc | now apply Hp].
  - now split.
  - unfold Browser.back. destruct (Browser.past h) as [|p ps] eqn:E.
    + rewrite E. now split.
    + simpl. split.
      * intros Hin. apply Hp. now right.
      * intros [E'|E']; [now apply Hc | now apply Hf].
  - unfold Browser.forward. destruct (Browser.future h) as [|f fs] eqn:E.
    + rewrite E. now split.
    + simpl. split.
      * intros [E'|E']; [now apply Hc | now apply Hp].
      * intros Hin. apply Hf. now right.
Qed.

Lemma reachable_rootless (h : Browser.History) :
  Browser.reachable h -> Browser.rootless h.
Proof.
  induction 1 as [locale path Hl | locale a h Hr IH Hl].
  - apply settle_rootless; [assumption | intros [] | intros []].
  - destruct (act_rootless a h IH) as [Hp Hf].
    now apply settle_rootless.
Qed.

Lemma back_rootless (h : Browser.History) :
  Browser.rootless h -> Browser.rootless (Browser.back h).
Proof.
  intros (Hp & Hc & Hf). unfold Browser.back.
  destruct (Browser.past h) as [|p ps] eqn:E.
  - repeat split; try assumption. now rewrite E.
  - repeat split; simpl.
    + intros Hin. apply Hp. now right.
    + intros ->. apply Hp. now left.
    + intros [E'|E']; [now apply Hc | now apply Hf].
Qed.

Lemma iter_back_rootless (n : nat) (h : Browser.History) :
  Browser.rootless h -> Browser.rootless (Nat.iter n Browser.back h).
Proof.
  intros Hh. induction n as [|n IH]; [assumption|].
  simpl. now apply back_rootless.
Qed.

(** C3: at the unprefixed root, with the default locale [en] as the
    resolved locale, the root route's component takes the location to
    [/en], the root prefixed with the locale. *)
Theorem root_redirects_to_en (before after : list string) :
  Config.defaultLocale = "en" /\
  RootRoute.RouteComponent Config.defaultLocale =
    {| RootRoute.replace := true; RootRoute.to := "en" |} /\
  Browser.present
    (Browser.settle Config.defaultLocale
       {| Browser.past := before; Browser.present := "/";
          Browser.future := after |}) = "/en".
Proof. repeat split. Qed.

(** C7: the root redirect is a replace-navigation made for every locale
    and as soon as the root is the current entry; it adds no entry to the
    history, and in a session of the application no number of steps back
    reaches the unprefixed root. *)
Theorem root_redirect_leaves_no_entry (h : Browser.History) (n : nat) :
  Browser.reachable h ->
  (forall locale, RootRoute.replace (RootRoute.RouteComponent locale) = true)
  /\ (forall locale before after,
         Browser.settle locale
           {| Browser.past := before; Browser.present := RootRoute.routePath;
              Browser.future := after |} =
         {| Browser.past := before;
            Browser.present :=
              Browser.resolvePath RootRoute.routePath locale;
            Browser.future := after |})
  /\ Browser.present (Nat.iter n Browser.back h) <> RootRoute.routePath.
Proof.
  intros Hr. split; [reflexivity | split; [reflexivity|]].
  apply (iter_back_rootless n h (reachable_rootless h Hr)).
Qed.

(** ** The modelled library rewriting *)

Lemma prefix_append (a b : string) : String.prefix a (a +:+ b) = true.
Proof.
  induction a as [|c a IH]; simpl; [now destruct b|].
  destruct (ascii_dec c c) as [_|Hne]; [exact IH | now destruct Hne].
Qed.

Lemma append_assoc (a b c : string) : (a +:+ b) +:+ c = a +:+ (b +:+ c).
Proof.
  induction a as [|x a IH]; [reflexivity|].
  change (String x ((a +:+ b) +:+ c) = String x (a +:+ (b +:+ c))).
  now rewrite IH.
Qed.

Lemma first_segment_locale (L : Locale) (r : string) :
  In L Config.locales ->
  Intlayer.first_segment (L +:+ "/" +:+ r) = (L, "/" +:+ r).
Proof.
  intros [<- | [<- | [<- | []]]]; reflexivity.
Qed.

Lemma is_locale_In (L : Locale) :
  In L Config.locales -> Intlayer.is_locale L = true.
Proof.
  intros [<- | [<- | [<- | []]]]; reflexivity.
Qed.

Lemma getPathWithoutLocale_localized (L : Locale) (r : string) :
  In L Config.locales ->
  Intlayer.getPathWithoutLocale ("/" +:+ L +:+ "/" +:+ r) = r.
Proof.
  intros HL. unfold Intlayer.getPathWithoutLocale.
  change (Intlayer.drop_slash ("/" +:+ L +:+ "/" +:+ r))
    with (L +:+ "/" +:+ r).
  rewrite (first_segment_locale L r HL), (is_locale_In L HL).
  reflexivity.
Qed.

Lemma getLocalizedUrl_idempotent (p : string) (L : Locale) :
  In L Config.locales ->
  Intlayer.getLocalizedUrl (Intlayer.getLocalizedUrl p L) L =
  Intlayer.getLocalizedUrl p L.
Proof.
  intros HL. unfold Intlayer.getLocalizedUrl at 1.
  unfold Intlayer.getLocalizedUrl at 1.
  rewrite (getPathWithoutLocale_localized L _ HL). reflexivity.
Qed.

(** The locale a path carries is replaced, and the rest of the path and
    the query string are kept. *)
Example getLocalizedUrl_about :
  Intlayer.getLocalizedUrl "/en/about?tab=team" "fr" = "/fr/about?tab=team"
  /\ Intlayer.getLocalizedUrl "/about" "es" = "/es/about"
  /\ Intlayer.getLocalizedUrl "/" "en" = "/en/".
Proof. repeat split. Qed.

Example switch_from_en_about_to_fr :
  Switcher.onLocaleChange Intlayer.getLocalizedUrl "/en/about" "?tab=team"
    "fr" = [LocationReplace "/fr/about?tab=team"].
Proof. reflexivity. Qed.

(** C2: over the modelled [getLocalizedUrl], the localization step of
    [LocalizedLink] and of [useLocalizedNavigate] is idempotent: for every
    path and every configured locale, applying it a second time with the
    same locale changes nothing. *)
Theorem localize_idempotent (p : string) (L : Locale) :
  In L Config.locales ->
  Link.localizedTo Intlayer.getLocalizedUrl
    (Link.localizedTo Intlayer.getLocalizedUrl p L) L =
    Link.localizedTo Intlayer.getLocalizedUrl p L /\
  Navigate.localizedTo Intlayer.getLocalizedUrl
    (Navigate.localizedTo Intlayer.getLocalizedUrl p L) L =
    Navigate.localizedTo Intlayer.getLocalizedUrl p L.
Proof.
  intros HL.
  pose proof (localizedTo_idempotent_at Intlayer.getLocalizedUrl p L
                (getLocalizedUrl_idempotent p L HL)) as H.
  split; exact H.
Qed.

(** C5: over the modelled [getLocalizedUrl], the localization of a path
    that is not an external URL begins with [/L/], for every locale [L]
    and so for every supported one. *)
Theorem localize_has_locale_prefix (P : string) (L : Locale) :
  Regex.test externalPattern P = false ->
  String.prefix ("/" +:+ L +:+ "/")
    (Link.localizedTo Intlayer.getLocalizedUrl P L) = true.
Proof.
  intros HP. unfold Link.localizedTo, Link.isExternal. rewrite HP.
  unfold Intlayer.getLocalizedUrl.
  replace ("/" +:+ L +:+ "/" +:+ Intlayer.getPathWithoutLocale P)
    with (("/" +:+ L +:+ "/") +:+ Intlayer.getPathWithoutLocale P).
  - apply prefix_append.
  - now rewrite !append_assoc.
Qed.

(** ** Instances *)

Lemma external_url_unchanged_witness :
  Regex.test externalPattern "https://example.com/docs" = true /\
  (Link.localizedTo Intlayer.getLocalizedUrl "https://example.com/docs" "fr"
     = "https://example.com/docs" /\
   Navigate.localizedTo Intlayer.getLocalizedUrl "https://example.com/docs"
     "fr" = "https://example.com/docs").
Proof.
  split; [reflexivity|].
  apply (external_url_unchanged Intlayer.getLocalizedUrl). reflexivity.
Defined.

Lemma other_fields_forwarded_witness :
  ("replace" : string) <> "to" /\
  (exists arg,
      Navigate.useLocalizedNavigate Intlayer.getLocalizedUrl "fr"
        {| to := "/about"; others := {[ "replace" := VBool true ]} |} =
        [RouterNavigate arg] /\
      arg !! "replace" = Some (VBool true)) /\
  Link.LocalizedLink Intlayer.getLocalizedUrl
    {| to := "/about"; others := {[ "replace" := VBool true ]} |} "fr"
    !! "replace" = Some (VBool true).
Proof.
  assert (Hk : ("replace" : string) <> "to") by discriminate.
  destruct (other_fields_forwarded Intlayer.getLocalizedUrl
              {| to := "/about"; others := {[ "replace" := VBool true ]} |}
              "fr" "replace" Hk) as [[arg [Harg [Hgiven _]]] [Hlink _]].
  split; [exact Hk|]. split.
  - exists arg. split; [exact Harg | exact Hgiven].
  - exact Hlink.
Defined.

Lemma switcher_options_witness :
  In "fr" Config.locales /\
  length (Switcher.options
            (Switcher.LocaleSwitcher (fun l _ => l) (fun _ => "ltr")
               "Language" Config.locales "fr")) = 3.
Proof.
  assert (H : In "fr" Config.locales) by (simpl; auto).
  split; [exact H|].
  apply (switcher_options (fun l _ => l) (fun _ => "ltr") "Language"
           Config.locales "fr" H).
Defined.

Lemma root_redirect_leaves_no_entry_witness :
  Browser.reachable
    (Browser.settle "fr" (Browser.act (Browser.Visit "/")
       (Browser.settle "en" (Browser.open "/docs")))) /\
  Browser.present
    (Nat.iter 1 Browser.back
       (Browser.settle "fr" (Browser.act (Browser.Visit "/")
          (Browser.settle "en" (Browser.open "/docs")))))
    <> RootRoute.routePath.
Proof.
  assert (H : Browser.reachable
                (Browser.settle "fr" (Browser.act (Browser.Visit "/")
                   (Browser.settle "en" (Browser.open "/docs"))))).
  { apply Browser.reach_step; [apply Browser.reach_open|]; simpl; auto. }
  split; [exact H|].
  apply (root_redirect_leaves_no_entry _ 1 H).
Defined.

Lemma localize_idempotent_witness :
  In "fr" Config.locales /\
  Link.localizedTo Intlayer.getLocalizedUrl
    (Link.localizedTo Intlayer.getLocalizedUrl "/en/about" "fr") "fr" =
  Link.localizedTo Intlayer.getLocalizedUrl "/en/about" "fr".
Proof.
  assert (H : In "fr" Config.locales) by (simpl; auto).
  split; [exact H|].
  apply (localize_idempotent "/en/about" "fr" H).
Defined.

Lemma localize_has_locale_prefix_witness :
  Regex.test externalPattern "/about" = false /\
  String.prefix "/fr/"
    (Link.localizedTo Intlayer.getLocalizedUrl "/about" "fr") = true.
Proof.
  split; [reflexivity|].
  apply (localize_has_locale_prefix "/about" "fr"). reflexivity.
Defined.

(** * Further properties of the components *)

(** ** Which targets count as external *)

Lemma prefix_exists (p s : string) :
  String.prefix p s = true <-> exists rest, s = p +:+ rest.
Proof.
  split.
  - revert s; induction p as [|c p IH]; intros s H.
    + now exists s.
    + destruct s as [|c' s']; [discriminate|]. simpl in H.
      destruct (ascii_dec c c') as [<-|]; [|discriminate].
      destruct (IH _ H) as [rest ->]. now exists rest.
  - intros [rest ->]. apply prefix_append.
Qed.

Lemma prefix_nil (s : string) : String.prefix "" s = true.
Proof. now destruct s. Qed.

Lemma prefix_cons (a b : ascii) (p s : string) :
  String.prefix (String a p) (String b s) =
  if Ascii.eqb a b then String.prefix p s else false.
Proof.
  change (String.prefix (String a p) (String b s))
    with (if ascii_dec a b then String.prefix p s else false).
  destruct (ascii_dec a b) as [->|Hne].
  - now rewrite Ascii.eqb_refl.
  - destruct (Ascii.eqb_spec a b); [contradiction | reflexivity].
Qed.

Lemma bool_eq_iff (a b : bool) : (a = true <-> b = true) -> a = b.
Proof.
  destruct a, b; intros [H1 H2]; try reflexivity.
  - symmetry. now apply H1.
  - now apply H2.
Qed.

Lemma test_externalPattern_prefixes (t : string) :
  Regex.test externalPattern t =
  String.prefix "//" t || String.prefix "http://" t
  || String.prefix "https://" t.
Proof.
  apply bool_eq_iff. rewrite externalPattern_spec, !orb_true_iff.
  rewrite !prefix_exists. split.
  - intros [r [H | [H | H]]]; eauto.
  - intros [[[r H] | [r H]] | [r H]]; exists r; auto.
Qed.

(** [isExternal], in the component and in the hook, is the test that the
    target starts with [//], [http://] or [https://], in lower case and
    at the very start of the string. *)
Theorem isExternal_prefixes (t : string) :
  Link.isExternal t =
    String.prefix "//" t || String.prefix "http://" t
    || String.prefix "https://" t /\
  Navigate.isExternal t =
    String.prefix "//" t || String.prefix "http://" t
    || String.prefix "https://" t.
Proof. split; apply test_externalPattern_prefixes. Qed.

Lemma prefix_extend (p t s : string) :
  String.prefix p t = true -> String.prefix p (t +:+ s) = true.
Proof.
  rewrite !prefix_exists. intros [r ->]. exists (r +:+ s).
  apply append_assoc.
Qed.

(** Whatever is appended to an external URL (a path, a query string, a
    fragment), the result is still external, and both wrappers leave it
    as it is. *)
Theorem external_url_extended (getLocalizedUrl : string -> Locale -> string)
    (U s : string) (L : Locale) :
  Link.isExternal U = true ->
  Link.isExternal (U +:+ s) = true /\
  Link.localizedTo getLocalizedUrl (U +:+ s) L = U +:+ s /\
  Navigate.localizedTo getLocalizedUrl (U +:+ s) L = U +:+ s.
Proof.
  intros HU.
  assert (H : Regex.test externalPattern (U +:+ s) = true).
  { unfold Link.isExternal in HU.
    rewrite test_externalPattern_prefixes in *.
    rewrite !orb_true_iff in *.
    destruct HU as [[H | H] | H]; eauto using prefix_extend. }
  split; [exact H|].
  now apply external_url_unchanged.
Qed.

(** An application path, that is [/] alone or [/] followed by anything but
    a second [/], is never taken for an external URL: both wrappers hand
    it to the library's [getLocalizedUrl] with the current locale. *)
Theorem app_path_is_localized (getLocalizedUrl : string -> Locale -> string)
    (t : string) (L : Locale) :
  String.prefix "/" t = true ->
  String.prefix "//" t = false ->
  Link.localizedTo getLocalizedUrl t L = getLocalizedUrl t L /\
  Navigate.localizedTo getLocalizedUrl t L = getLocalizedUrl t L.
Proof.
  intros H1 H2.
  assert (H : Regex.test externalPattern t = false).
  { rewrite test_externalPattern_prefixes, H2.
    destruct t as [|c t]; [discriminate|]. rewrite prefix_cons in H1.
    destruct (Ascii.eqb_spec "/" c) as [<-|]; [reflexivity | discriminate]. }
  unfold Link.localizedTo, Navigate.localizedTo,
    Link.isExternal, Navigate.isExternal.
  now rewrite H.
Qed.

(** The empty target, and every target whose first character is neither
    [/] nor a lower-case [h] ([mailto:] and [tel:] links, [#fragment]
    links, relative paths, schemes in upper case), is not external: it is
    passed to [getLocalizedUrl] like an application path. *)
Theorem other_targets_are_localized
    (getLocalizedUrl : string -> Locale -> string) (t : string) (L : Locale) :
  String.prefix "/" t = false ->
  String.prefix "h" t = false ->
  Link.isExternal t = false /\
  Link.localizedTo getLocalizedUrl t L = getLocalizedUrl t L /\
  Navigate.localizedTo getLocalizedUrl t L = getLocalizedUrl t L.
Proof.
  intros H1 H2.
  assert (H : Regex.test externalPattern t = false).
  { rewrite test_externalPattern_prefixes.
    destruct t as [|c t]; [reflexivity|].
    rewrite !prefix_cons in *. rewrite prefix_nil in H1, H2.
    destruct (Ascii.eqb "/" c); [discriminate|].
    destruct (Ascii.eqb "h" c); [discriminate | reflexivity]. }
  unfold Link.localizedTo, Navigate.localizedTo,
    Link.isExternal, Navigate.isExternal.
  now rewrite H.
Qed.

(** For every library function, the localization step of both wrappers is
    idempotent at each path and locale at which the library's rewriting
    is: the external-URL test never undoes it. *)
Theorem wrappers_preserve_idempotence
    (getLocalizedUrl : string -> Locale -> string) (p : string) (L : Locale) :
  getLocalizedUrl (getLocalizedUrl p L) L = getLocalizedUrl p L ->
  Link.localizedTo getLocalizedUrl (Link.localizedTo getLocalizedUrl p L) L
    = Link.localizedTo getLocalizedUrl p L /\
  Navigate.localizedTo getLocalizedUrl
    (Navigate.localizedTo getLocalizedUrl p L) L
    = Navigate.localizedTo getLocalizedUrl p L.
Proof.
  intros H. split; now apply localizedTo_idempotent_at.
Qed.

(** ** The options of the locale switcher *)

(** The selector lists the available locales in their order, whatever
    the active locale: the value, the [lang] attribute and the React key
    of the i-th option are the i-th locale, so the keys are distinct
    whenever the locales are. *)
Theorem options_follow_locales
    (getLocaleName : Locale -> Locale -> string)
    (getHTMLTextDir : Locale -> string)
    (label : string) (available : list Locale) (locale : Locale) :
  map Switcher.value
    (Switcher.options
       (Switcher.LocaleSwitcher getLocaleName getHTMLTextDir
          label available locale)) = available /\
  map Switcher.lang
    (Switcher.options
       (Switcher.LocaleSwitcher getLocaleName getHTMLTextDir
          label available locale)) = available /\
  map Switcher.key
    (Switcher.options
       (Switcher.LocaleSwitcher getLocaleName getHTMLTextDir
          label available locale)) = available.
Proof.
  simpl. rewrite !map_map. simpl. rewrite !map_id.
  now repeat split.
Qed.

(** ** The root redirect, for every locale *)

Lemma resolve_from_root (L : Locale) :
  String.prefix "/" L = false ->
  Browser.resolvePath RootRoute.routePath L = "/" +:+ L.
Proof.
  intros H. destruct L as [|c r]; [reflexivity|].
  rewrite prefix_cons, prefix_nil in H.
  destruct (Ascii.eqb_spec "/" c) as [|Hne]; [discriminate|].
  destruct c as [[] [] [] [] [] [] [] []];
    first [reflexivity | now destruct Hne].
Qed.

Lemma root_redirect_target_aux (L : Locale) (before after : list string) :
  String.prefix "/" L = false ->
  Browser.settle L
    {| Browser.past := before; Browser.present := RootRoute.routePath;
       Browser.future := after |} =
  {| Browser.past := before; Browser.present := "/" +:+ L;
     Browser.future := after |}.
Proof.
  intros H. unfold Browser.settle, Browser.mount; simpl.
  unfold Browser.replaceState; simpl.
  now rewrite (resolve_from_root L H).
Qed.

(** At the root, the redirect takes the location to the locale appended
    to [/], for every locale that does not itself start with [/], and
    leaves the entries before and after the current one as they are. *)
Theorem root_redirect_target (L : Locale) (before after : list string) :
  String.prefix "/" L = false ->
  Browser.settle L
    {| Browser.past := before; Browser.present := RootRoute.routePath;
       Browser.future := after |} =
  {| Browser.past := before; Browser.present := "/" +:+ L;
     Browser.future := after |}.
Proof. apply root_redirect_target_aux. Qed.

Lemma settle_off_root (L : Locale) (h : Browser.History) :
  Browser.present h <> RootRoute.routePath -> Browser.settle L h = h.
Proof.
  intros Hne. unfold Browser.settle.
  now destruct (String.eqb_spec (Browser.present h) RootRoute.routePath).
Qed.

(** With a configured locale the redirect fires once: after it the root
    route no longer matches, whatever the locale then in force, so the
    component cannot redirect in a loop. *)
Theorem redirect_fires_once (L L' : Locale) (h : Browser.History) :
  In L Config.locales ->
  Browser.present (Browser.settle L h) <> RootRoute.routePath /\
  Browser.settle L' (Browser.settle L h) = Browser.settle L h.
Proof.
  intros HL.
  assert (Hne : Browser.present (Browser.settle L h) <> RootRoute.routePath).
  { unfold Browser.settle.
    destruct (String.eqb_spec (Browser.present h) RootRoute.routePath)
      as [Heq|Hne]; [|exact Hne].
    unfold Browser.mount; simpl. rewrite Heq.
    now apply resolve_locale_not_root. }
  split; [exact Hne | now apply settle_off_root].
Qed.

(** Opening the root from a page and then stepping back returns to that
    page with its earlier history intact; the localized root is the one
    entry ahead.  The unprefixed root left no entry to step back onto. *)
Theorem visit_root_then_back (L : Locale) (h : Browser.History) :
  String.prefix "/" L = false ->
  Browser.back (Browser.settle L (Browser.act (Browser.Visit "/") h)) =
  {| Browser.past := Browser.past h; Browser.present := Browser.present h;
     Browser.future := ["/" +:+ L] |}.
Proof.
  intros H.
  change (Browser.act (Browser.Visit "/") h)
    with {| Browser.past := Browser.present h :: Browser.past h;
            Browser.present := RootRoute.routePath;
            Browser.future := [] |}.
  rewrite (root_redirect_target_aux L (Browser.present h :: Browser.past h)
             [] H).
  reflexivity.
Qed.

(** ** Instances of the further properties *)

Lemma external_url_extended_witness :
  Link.isExternal "https://example.com" = true /\
  (Link.isExternal ("https://example.com" +:+ "/docs?page=2#top") = true /\
   Link.localizedTo Intlayer.getLocalizedUrl
     ("https://example.com" +:+ "/docs?page=2#top") "fr" =
     "https://example.com" +:+ "/docs?page=2#top" /\
   Navigate.localizedTo Intlayer.getLocalizedUrl
     ("https://example.com" +:+ "/docs?page=2#top") "fr" =
     "https://example.com" +:+ "/docs?page=2#top").
Proof.
  split; [reflexivity|].
  apply (external_url_extended Intlayer.getLocalizedUrl
           "https://example.com" "/docs?page=2#top" "fr").
  reflexivity.
Defined.

Lemma app_path_is_localized_witness :
  String.prefix "/" "/about" = true /\
  String.prefix "//" "/about" = false /\
  Link.localizedTo Intlayer.getLocalizedUrl "/about" "fr" =
    Intlayer.getLocalizedUrl "/about" "fr".
Proof.
  split; [reflexivity | split; [reflexivity|]].
  apply (app_path_is_localized Intlayer.getLocalizedUrl "/about" "fr");
    reflexivity.
Defined.

Lemma other_targets_are_localized_witness :
  String.prefix "/" "mailto:team@example.com" = false /\
  String.prefix "h" "mailto:team@example.com" = false /\
  Link.isExternal "mailto:team@example.com" = false.
Proof.
  split; [reflexivity | split; [reflexivity|]].
  apply (other_targets_are_localized Intlayer.getLocalizedUrl
           "mailto:team@example.com" "fr"); reflexivity.
Defined.

Lemma wrappers_preserve_idempotence_witness :
  Intlayer.getLocalizedUrl (Intlayer.getLocalizedUrl "/en/about" "fr") "fr"
    = Intlayer.getLocalizedUrl "/en/about" "fr" /\
  Link.localizedTo Intlayer.getLocalizedUrl
    (Link.localizedTo Intlayer.getLocalizedUrl "/en/about" "fr") "fr"
    = Link.localizedTo Intlayer.getLocalizedUrl "/en/about" "fr".
Proof.
  split; [reflexivity|].
  apply (wrappers_preserve_idempotence Intlayer.getLocalizedUrl
           "/en/about" "fr").
  reflexivity.
Defined.

Lemma selector_emits_available_witness :
  In (Switcher.renderOption (fun l _ => l) (fun _ => "ltr") "en" "fr")
    (Switcher.options
       (Switcher.LocaleSwitcher (fun l _ => l) (fun _ => "ltr")
          "Language" Config.locales "en")) /\
  In (Switcher.value
        (Switcher.renderOption (fun l _ => l) (fun _ => "ltr") "en" "fr"))
    Config.locales.
Proof.
  assert (H : In (Switcher.renderOption (fun l _ => l) (fun _ => "ltr")
                    "en" "fr")
                (Switcher.options
                   (Switcher.LocaleSwitcher (fun l _ => l) (fun _ => "ltr")
                      "Language" Config.locales "en")))
    by (simpl; auto).
  split; [exact H|].
  apply (selector_emits_available (fun l _ => l) (fun _ => "ltr")
           "Language" Config.locales "en" _ H).
Defined.

Lemma locale_change_as_link_witness :
  Link.isExternal ("/en/about" +:+ "?tab=team") = false /\
  Switcher.onLocaleChange Intlayer.getLocalizedUrl "/en/about" "?tab=team"
    "fr" =
  [LocationReplace
     (Link.localizedTo Intlayer.getLocalizedUrl
        ("/en/about" +:+ "?tab=team") "fr")].
Proof.
  split; [reflexivity|].
  apply (locale_change_as_link Intlayer.getLocalizedUrl
           "/en/about" "?tab=team" "fr").
  reflexivity.
Defined.

Lemma root_redirect_target_witness :
  String.prefix "/" "es" = false /\
  Browser.settle "es"
    {| Browser.past := ["/fr/about"]; Browser.present := RootRoute.routePath;
       Browser.future := [] |} =
  {| Browser.past := ["/fr/about"]; Browser.present := "/" +:+ "es";
     Browser.future := [] |}.
Proof.
  split; [reflexivity|].
  apply (root_redirect_target "es" ["/fr/about"] []). reflexivity.
Defined.

Lemma redirect_fires_once_witness :
  In "fr" Config.locales /\
  Browser.settle "en" (Browser.settle "fr" (Browser.open "/")) =
  Browser.settle "fr" (Browser.open "/").
Proof.
  assert (H : In "fr" Config.locales) by (simpl; auto).
  split; [exact H|].
  apply (redirect_fires_once "fr" "en" (Browser.open "/") H).
Defined.

Lemma visit_root_then_back_witness :
  String.prefix "/" "fr" = false /\
  Browser.back
    (Browser.settle "fr"
       (Browser.act (Browser.Visit "/") (Browser.open "/fr/about"))) =
  {| Browser.past := Browser.past (Browser.open "/fr/about");
     Browser.present := Browser.present (Browser.open "/fr/about");
     Browser.future := ["/" +:+ "fr"] |}.
Proof.
  split; [reflexivity|].
  apply (visit_root_then_back "fr" (Browser.open "/fr/about")).
  reflexivity.
Defined.
